(** * ApiKeyInput: the credential form of src/components/ApiKeyInput.tsx

    A shallow embedding of the React component [ApiKeyInput]: its three
    pieces of state, the mount effect, [handleSubmit], [handleReset] and the
    part of the render function that decides which handlers are reachable.

    Conventions of the embedding
    - a JavaScript string is its sequence of UTF-16 code units;
    - [localStorage] is a finite map from strings to strings;
    - every call that leaves the component (to [localStorage], to
      [initializeOpenAI], to the [onApiKeySet] prop) is appended to a log, so
      that "was called" and "was not called" are statements about the log;
    - [initializeOpenAI] lives in ../services/openaiService and is a
      parameter here: it maps a key to [None] (it returned) or to [Some err]
      (it threw [err]), and its outcome depends on the key only;
    - the environment values are strings or absent;
    - the effect runs when the component mounts and again whenever the
      [onApiKeySet] prop changes identity, as its dependency array says;
      [reachable] has both, [reachable_stable] is the case of a parent
      whose callback keeps its identity;
    - the state setters, the [localStorage] methods and the [onApiKeySet]
      prop do not throw. *)

From Stdlib Require Import String Ascii NArith List Bool.
From stdpp Require Import base option list gmap.

Local Open Scope N_scope.

(** ** JavaScript strings *)

Definition code_unit : Type := N.
Abbreviation js_string := (list code_unit).

(** A string literal of the source, as code units. *)
Definition lit (s : string) : js_string :=
  map N_of_ascii (list_ascii_of_string s).

(** ECMAScript WhiteSpace and LineTerminator code points, the characters
    that [String.prototype.trim] strips. *)
Definition is_white_space (c : code_unit) : bool :=
  (c =? 0x0009) || (c =? 0x000B) || (c =? 0x000C) || (c =? 0x0020)
  || (c =? 0x00A0) || (c =? 0xFEFF)
  || (c =? 0x1680) || ((0x2000 <=? c) && (c <=? 0x200A))
  || (c =? 0x202F) || (c =? 0x205F) || (c =? 0x3000).

Definition is_line_terminator (c : code_unit) : bool :=
  (c =? 0x000A) || (c =? 0x000D) || (c =? 0x2028) || (c =? 0x2029).

Definition is_trimmed_char (c : code_unit) : bool :=
  is_white_space c || is_line_terminator c.

Fixpoint trimStart (s : js_string) : js_string :=
  match s with
  | [] => []
  | c :: s' => if is_trimmed_char c then trimStart s' else s
  end.

Definition trimEnd (s : js_string) : js_string :=
  rev (trimStart (rev s)).

(** [s.trim()] *)
Definition trim (s : js_string) : js_string := trimEnd (trimStart s).

(** A value that is a string, [undefined] or [null]: [None] stands for the
    two empty values, which the component never tells apart. *)
Abbreviation js_opt_string := (option js_string).

(** Truthiness: [undefined], [null] and the empty string are falsy. *)
Definition js_truthy (v : js_opt_string) : bool :=
  match v with
  | Some (_ :: _) => true
  | _ => false
  end.

(** [a || b] *)
Definition js_or (a b : js_opt_string) : js_opt_string :=
  if js_truthy a then a else b.

(** What a [catch (err)] clause can receive: an instance of [Error] with
    its [message], or any other value with the text [String(err)] gives. *)
Inductive js_value : Type :=
  | JsError (message : js_string)
  | JsOther (string_form : js_string).

(** [err instanceof Error ? err.message : String(err)] *)
Definition describe (err : js_value) : js_string :=
  match err with
  | JsError message => message
  | JsOther string_form => string_form
  end.

(** ** The component's state and its surroundings *)

Definition API_KEY_STORAGE_KEY : js_string := lit "openai_api_key".

(** The three [useState] cells. *)
Record UIState : Type := mkUI {
  apiKey : js_string;
  error : js_opt_string;
  isInitialized : bool
}.

(** [useState(''), useState(null), useState(false)] *)
Definition initial_ui : UIState :=
  {| apiKey := []; error := None; isInitialized := false |}.

(** The two places the mount effect looks for VITE_OPENAI_API_KEY. *)
Record Env : Type := mkEnv {
  import_meta_env : js_opt_string;
  window_process_env : js_opt_string
}.

(** Calls that leave the component. *)
Inductive Effect : Type :=
  | GetItem (key : js_string)
  | SetItem (key value : js_string)
  | RemoveItem (key : js_string)
  | InitCall (key : js_string)
  | Notify (isSet : bool).

Record World : Type := mkWorld {
  ui : UIState;
  localStorage : gmap js_string js_string;
  log : list Effect
}.

(** A freshly rendered component over a given storage. *)
Definition fresh (st : gmap js_string js_string) : World :=
  {| ui := initial_ui; localStorage := st; log := [] |}.

(** ** Handlers as state transformers *)

Definition Handler (A : Type) : Type := World → A * World.

#[global] Instance Handler_ret : MRet Handler := λ A a w, (a, w).
#[global] Instance Handler_bind : MBind Handler :=
  λ A B f m w, let '(a, w') := m w in f a w'.

Definition exec {A} (m : Handler A) (w : World) : World := snd (m w).

Definition emit (e : Effect) (w : World) : World :=
  {| ui := ui w; localStorage := localStorage w; log := log w ++ [e] |}.

Definition getItem (key : js_string) : Handler js_opt_string :=
  λ w, (localStorage w !! key, emit (GetItem key) w).

Definition setItem (key value : js_string) : Handler unit :=
  λ w, (tt, emit (SetItem key value)
              {| ui := ui w;
                 localStorage := <[key := value]> (localStorage w);
                 log := log w |}).

Definition removeItem (key : js_string) : Handler unit :=
  λ w, (tt, emit (RemoveItem key)
              {| ui := ui w;
                 localStorage := delete key (localStorage w);
                 log := log w |}).

Definition update_ui (f : UIState → UIState) : Handler unit :=
  λ w, (tt, {| ui := f (ui w); localStorage := localStorage w; log := log w |}).

Definition setApiKey (v : js_string) : Handler unit :=
  update_ui (λ u, {| apiKey := v; error := error u;
                     isInitialized := isInitialized u |}).

Definition setError (e : js_opt_string) : Handler unit :=
  update_ui (λ u, {| apiKey := apiKey u; error := e;
                     isInitialized := isInitialized u |}).

Definition setIsInitialized (b : bool) : Handler unit :=
  update_ui (λ u, {| apiKey := apiKey u; error := error u;
                     isInitialized := b |}).

(** The [apiKey] a handler closes over: the state of the current render. *)
Definition readApiKey : Handler js_string := λ w, (apiKey (ui w), w).

(** The prop [onApiKeySet]. *)
Definition onApiKeySet (isSet : bool) : Handler unit :=
  λ w, (tt, emit (Notify isSet) w).

(** ** Reading the log *)

Definition init_calls (l : list Effect) : list js_string :=
  omap (λ e, match e with InitCall k => Some k | _ => None end) l.

Definition notifications (l : list Effect) : list bool :=
  omap (λ e, match e with Notify b => Some b | _ => None end) l.

Definition storage_reads (l : list Effect) : list js_string :=
  omap (λ e, match e with GetItem k => Some k | _ => None end) l.

Definition storage_writes (l : list Effect) : list Effect :=
  omap (λ e, match e with
             | SetItem _ _ | RemoveItem _ => Some e
             | _ => None
             end) l.

(** ** The handlers *)

Section ApiKeyInput.

(** [initializeOpenAI key]: [None] when the call returns, [Some err] when
    it throws [err]. *)
Variable initializeOpenAI : js_string → option js_value.

(** The call inside a [try] block: logged, its exception handed to the
    [catch] clause. *)
Definition try_initializeOpenAI (key : js_string) : Handler (option js_value) :=
  λ w, (initializeOpenAI key, emit (InitCall key) w).

(** [const envApiKey = import.meta.env.VITE_OPENAI_API_KEY
      || (window as any).process?.env?.VITE_OPENAI_API_KEY] *)
Definition envApiKey (env : Env) : js_opt_string :=
  js_or (import_meta_env env) (window_process_env env).

(** [const keyToUse = envApiKey || savedApiKey] *)
Definition keyToUse (env : Env) (savedApiKey : js_opt_string) : js_opt_string :=
  js_or (envApiKey env) savedApiKey.

(** The body of the [useEffect] that runs when the component mounts. *)
Definition useEffect_mount (env : Env) : Handler unit :=
  savedApiKey ← getItem API_KEY_STORAGE_KEY;
  match keyToUse env savedApiKey with
  | Some key =>
      if js_truthy (keyToUse env savedApiKey) then
        thrown ← try_initializeOpenAI key;
        match thrown with
        | None =>
            setApiKey key;;
            setIsInitialized true;;
            onApiKeySet true
        | Some _ =>
            setError (Some (lit "Failed to initialize with API key"));;
            if negb (js_truthy (envApiKey env))
            then removeItem API_KEY_STORAGE_KEY
            else mret tt
        end
      else mret tt
  | None => mret tt
  end.

(** [handleSubmit]; [e.preventDefault()] has no effect on the model. *)
Definition handleSubmit : Handler unit :=
  apiKey ← readApiKey;
  setError None;;
  if negb (js_truthy (Some (trim apiKey))) then
    setError (Some (lit "API key is required"))
  else
    thrown ← try_initializeOpenAI (trim apiKey);
    match thrown with
    | None =>
        setItem API_KEY_STORAGE_KEY (trim apiKey);;
        setIsInitialized true;;
        onApiKeySet true
    | Some err =>
        setError (Some (lit "Failed to initialize OpenAI: " ++ describe err))
    end.

Definition handleReset : Handler unit :=
  removeItem API_KEY_STORAGE_KEY;;
  setApiKey [];;
  setIsInitialized false;;
  onApiKeySet false.

(** [onChange={(e) => setApiKey(e.target.value)}] *)
Definition handleChange (value : js_string) : Handler unit :=
  setApiKey value.

(** ** One mounted instance and the events the render function allows *)

Inductive Event : Type :=
  | Change (value : js_string)
  | Submit
  | Reset.

(** The form (text field and submit) is rendered when [isInitialized] is
    false, the reset button when it is true. The submit button is disabled
    while the trimmed input is empty, but [handleSubmit] is attached to the
    form's submit event and guards against that input itself, so [Submit] is
    enabled whatever the input is. *)
Definition enabled (ev : Event) (w : World) : bool :=
  match ev with
  | Change _ | Submit => negb (isInitialized (ui w))
  | Reset => isInitialized (ui w)
  end.

Definition step (ev : Event) : World → World :=
  match ev with
  | Change v => exec (handleChange v)
  | Submit => exec handleSubmit
  | Reset => exec handleReset
  end.

(** The component is rendered over storage [st] and its effect runs. *)
Definition mount (env : Env) (st : gmap js_string js_string) : World :=
  exec (useEffect_mount env) (fresh st).

(** The effect is declared with the dependency array [[onApiKeySet]]: after
    its first run React runs its body again, on the state the instance then
    has, each time the parent passes a callback of a new identity. *)
Definition rerun (env : Env) : World → World :=
  exec (useEffect_mount env).

(** The states of a mounted instance: the first run of the effect, then user
    events and further runs of the effect in any order. *)
Inductive reachable (env : Env) (st : gmap js_string js_string) : World → Prop :=
  | reachable_mount : reachable env st (mount env st)
  | reachable_step w ev :
      reachable env st w → enabled ev w = true → reachable env st (step ev w)
  | reachable_rerun w :
      reachable env st w → reachable env st (rerun env w).

(** The states of an instance whose parent passes the same callback at every
    render (a state setter, a memoised function), so that the effect runs
    once: the first run, then user events only. *)
Inductive reachable_stable (env : Env) (st : gmap js_string js_string) :
    World → Prop :=
  | stable_mount : reachable_stable env st (mount env st)
  | stable_step w ev :
      reachable_stable env st w → enabled ev w = true →
      reachable_stable env st (step ev w).

End ApiKeyInput.

(** ** What the render function shows *)

(** The form branch of the JSX: the text field, the collapsible error alert
    and the submit button. *)
Record FormView : Type := mkForm {
  field_value : js_string;        (* value={apiKey} *)
  error_open : bool;              (* <Collapse in={!!error}> *)
  error_text : js_opt_string;     (* {error} *)
  submit_disabled : bool          (* disabled={!apiKey.trim()} *)
}.

Inductive View : Type :=
  | Ready                         (* success alert and "Reset API Key" *)
  | Form (form : FormView).

(** [isInitialized ? (...) : (...)] *)
Definition render (u : UIState) : View :=
  if isInitialized u then Ready
  else Form {| field_value := apiKey u;
               error_open := js_truthy (error u);
               error_text := error u;
               submit_disabled := negb (js_truthy (Some (trim (apiKey u)))) |}.

(** ** Properties named by the specification *)

(** The parent's last received value, if it received any. *)
Definition parent_view (l : list Effect) : option bool :=
  last (notifications l).

(** What an observer of the component can see once a handler has run: the
    state, the storage and the value the parent holds. *)
Definition observable (w : World) : UIState * gmap js_string js_string * option bool :=
  (ui w, localStorage w, parent_view (log w)).

(** The most recent call of [initializeOpenAI], if there was one. *)
Definition last_init_call (l : list Effect) : js_opt_string :=
  last (init_calls l).



(** A list of notifications in which each value differs from the one
    before, the first being [expected]. *)
Fixpoint alternates (expected : bool) (l : list bool) : bool :=
  match l with
  | [] => true
  | b :: l' => eqb b expected && alternates (negb expected) l'
  end.

(** ** Sample data *)

(** An initializer that accepts the key sk-good and throws on any other. *)
Definition accepts_sk_good (key : js_string) : option js_value :=
  if decide (key = lit "sk-good") then None
  else Some (JsError (lit "Incorrect API key provided")).

(** An initializer that throws a value that is not an [Error]. *)
Definition throws_text (key : js_string) : option js_value :=
  Some (JsOther (lit "quota exceeded")).

Definition no_env : Env :=
  {| import_meta_env := None; window_process_env := None |}.

Definition env_sk_good : Env :=
  {| import_meta_env := Some (lit "sk-good"); window_process_env := None |}.

Definition env_sk_bad : Env :=
  {| import_meta_env := Some (lit "sk-bad"); window_process_env := None |}.

(** VITE_OPENAI_API_KEY is set, to the empty string. *)
Definition env_empty : Env :=
  {| import_meta_env := Some []; window_process_env := None |}.

Definition stored (value : js_string) : gmap js_string js_string :=
  {[ API_KEY_STORAGE_KEY := value ]}.

(** A state in which the user typed [value] into the text field. *)
Definition typed (value : js_string) : World :=
  {| ui := {| apiKey := value; error := None; isInitialized := false |};
     localStorage := ∅; log := [] |}.

(** A page load over a storage that holds another site setting and a stale
    key: the stale key is rejected at startup, then the user types a good
    key with blanks around it and submits ... *)
Definition session_storage : gmap js_string js_string :=
  <[lit "theme" := lit "dark"]> (stored (lit "sk-old")).

Definition session_ready : World :=
  step accepts_sk_good Submit
    (step accepts_sk_good (Change (lit " sk-good "))
       (mount accepts_sk_good no_env session_storage)).

(** ... and later resets. *)
Definition session_reset : World :=
  step accepts_sk_good Reset session_ready.


(** * Proofs *)

(** Unfold a handler down to record expressions, leaving string literals,
    [trim] and the storage operations folded. *)
Ltac run_handler :=
  unfold mount, rerun, exec, handleSubmit, handleReset, handleChange,
    useEffect_mount,
    fresh, try_initializeOpenAI, getItem, setItem, removeItem, setApiKey,
    setError, setIsInitialized, update_ui, readApiKey, onApiKeySet, emit,
    mbind, Handler_bind, mret, Handler_ret;
  cbn [fst snd ui localStorage log apiKey error isInitialized].

(** ** trim *)

Lemma trimStart_nil_iff (s : js_string) :
  trimStart s = [] ↔ forallb is_trimmed_char s = true.
Proof.
  induction s as [|c s IH]; simpl; [done|].
  destruct (is_trimmed_char c); simpl; [exact IH|].
  split; discriminate.
Qed.

Lemma trimStart_suffix (s : js_string) : ∃ p, s = p ++ trimStart s.
Proof.
  induction s as [|c s [p Hp]]; simpl.
  - by exists [].
  - destruct (is_trimmed_char c).
    + exists (c :: p). simpl. by rewrite <- Hp.
    + by exists [].
Qed.

Lemma forallb_trimStart (s : js_string) :
  forallb is_trimmed_char (trimStart s) = true →
  forallb is_trimmed_char s = true.
Proof.
  induction s as [|c s IH]; simpl; [done|].
  destruct (is_trimmed_char c) eqn:Hc; simpl; [exact IH|].
  by rewrite Hc.
Qed.

Lemma trim_nil_iff (s : js_string) :
  trim s = [] ↔ forallb is_trimmed_char s = true.
Proof.
  unfold trim, trimEnd. split.
  - intros H. apply forallb_trimStart.
    apply (f_equal (@rev _)) in H. rewrite rev_involutive in H. simpl in H.
    apply trimStart_nil_iff in H.
    rewrite forallb_forall in *. intros c Hc. apply H, in_rev.
    by rewrite rev_involutive.
  - intros H. apply trimStart_nil_iff in H. by rewrite H.
Qed.

Example trim_ascii : trim (lit "  sk-good ") = lit "sk-good".
Proof. reflexivity. Qed.

(** No-break space, em space, byte order mark and line feed are stripped;
    white space inside the string is kept. *)
Example trim_unicode :
  trim [0x00A0; 0x2003; 0x73; 0x20; 0x6B; 0xFEFF; 0x000A] = [0x73; 0x20; 0x6B].
Proof. reflexivity. Qed.

Lemma js_truthy_Some (s : js_string) : js_truthy (Some s) = true ↔ s ≠ [].
Proof. destruct s; simpl; split; congruence. Qed.

Lemma js_truthy_false (v : js_opt_string) :
  js_truthy v = false ↔ v = None ∨ v = Some [].
Proof.
  destruct v as [[|c s]|]; simpl; split; intros H; auto; try discriminate;
    destruct H; discriminate.
Qed.

(** ** What each handler does, case by case *)

Section Handlers.

Variable initializeOpenAI : js_string → option js_value.

Local Abbreviation handleSubmit := (handleSubmit initializeOpenAI).
Local Abbreviation useEffect_mount := (useEffect_mount initializeOpenAI).
Local Abbreviation mount := (mount initializeOpenAI).

Lemma handleSubmit_required (w : World) :
  trim (apiKey (ui w)) = [] →
  exec handleSubmit w =
    {| ui := {| apiKey := apiKey (ui w);
                error := Some (lit "API key is required");
                isInitialized := isInitialized (ui w) |};
       localStorage := localStorage w;
       log := log w |}.
Proof. intros H. run_handler. by rewrite H. Qed.

Lemma handleSubmit_returned (w : World) :
  trim (apiKey (ui w)) ≠ [] →
  initializeOpenAI (trim (apiKey (ui w))) = None →
  exec handleSubmit w =
    {| ui := {| apiKey := apiKey (ui w); error := None; isInitialized := true |};
       localStorage := <[API_KEY_STORAGE_KEY := trim (apiKey (ui w))]> (localStorage w);
       log := log w ++ [InitCall (trim (apiKey (ui w)));
                        SetItem API_KEY_STORAGE_KEY (trim (apiKey (ui w)));
                        Notify true] |}.
Proof.
  intros Hne Hok. apply js_truthy_Some in Hne.
  run_handler. rewrite Hne, Hok. cbn. by rewrite <- !app_assoc.
Qed.

Lemma handleSubmit_threw (w : World) (err : js_value) :
  trim (apiKey (ui w)) ≠ [] →
  initializeOpenAI (trim (apiKey (ui w))) = Some err →
  exec handleSubmit w =
    {| ui := {| apiKey := apiKey (ui w);
                error := Some (lit "Failed to initialize OpenAI: " ++ describe err);
                isInitialized := isInitialized (ui w) |};
       localStorage := localStorage w;
       log := log w ++ [InitCall (trim (apiKey (ui w)))] |}.
Proof.
  intros Hne Hthrow. apply js_truthy_Some in Hne.
  run_handler. by rewrite Hne, Hthrow.
Qed.

Lemma handleReset_eq (w : World) :
  exec handleReset w =
    {| ui := {| apiKey := []; error := error (ui w); isInitialized := false |};
       localStorage := delete API_KEY_STORAGE_KEY (localStorage w);
       log := log w ++ [RemoveItem API_KEY_STORAGE_KEY; Notify false] |}.
Proof. run_handler. by rewrite <- app_assoc. Qed.

Lemma mount_no_key (env : Env) (st : gmap js_string js_string) :
  js_truthy (keyToUse env (st !! API_KEY_STORAGE_KEY)) = false →
  mount env st =
    {| ui := initial_ui; localStorage := st;
       log := [GetItem API_KEY_STORAGE_KEY] |}.
Proof.
  intros H. run_handler. rewrite H. by destruct (keyToUse _ _).
Qed.

Lemma mount_returned (env : Env) (st : gmap js_string js_string) (key : js_string) :
  keyToUse env (st !! API_KEY_STORAGE_KEY) = Some key → key ≠ [] →
  initializeOpenAI key = None →
  mount env st =
    {| ui := {| apiKey := key; error := None; isInitialized := true |};
       localStorage := st;
       log := [GetItem API_KEY_STORAGE_KEY; InitCall key; Notify true] |}.
Proof.
  intros Hkey Hne Hok. apply js_truthy_Some in Hne.
  run_handler. rewrite Hkey, Hne, Hok. done.
Qed.

Lemma mount_threw (env : Env) (st : gmap js_string js_string)
    (key : js_string) (err : js_value) :
  keyToUse env (st !! API_KEY_STORAGE_KEY) = Some key → key ≠ [] →
  initializeOpenAI key = Some err →
  mount env st =
    {| ui := {| apiKey := []; isInitialized := false;
                error := Some (lit "Failed to initialize with API key") |};
       localStorage :=
         if js_truthy (envApiKey env) then st else delete API_KEY_STORAGE_KEY st;
       log :=
         [GetItem API_KEY_STORAGE_KEY; InitCall key]
         ++ (if js_truthy (envApiKey env) then []
             else [RemoveItem API_KEY_STORAGE_KEY]) |}.
Proof.
  intros Hkey Hne Hthrow. apply js_truthy_Some in Hne.
  run_handler. rewrite Hkey, Hne, Hthrow.
  by destruct (js_truthy (envApiKey env)).
Qed.

(** The same three cases for a run of the effect on any state. *)
Lemma rerun_no_key (env : Env) (w : World) :
  js_truthy (keyToUse env (localStorage w !! API_KEY_STORAGE_KEY)) = false →
  rerun initializeOpenAI env w =
    {| ui := ui w; localStorage := localStorage w;
       log := log w ++ [GetItem API_KEY_STORAGE_KEY] |}.
Proof.
  intros H. run_handler. rewrite H. by destruct (keyToUse _ _).
Qed.

Lemma rerun_returned (env : Env) (w : World) (key : js_string) :
  keyToUse env (localStorage w !! API_KEY_STORAGE_KEY) = Some key → key ≠ [] →
  initializeOpenAI key = None →
  rerun initializeOpenAI env w =
    {| ui := {| apiKey := key; error := error (ui w); isInitialized := true |};
       localStorage := localStorage w;
       log := log w ++ [GetItem API_KEY_STORAGE_KEY; InitCall key; Notify true] |}.
Proof.
  intros Hkey Hne Hok. apply js_truthy_Some in Hne.
  run_handler. rewrite Hkey, Hne, Hok. cbn. by rewrite <- !app_assoc.
Qed.

Lemma rerun_threw (env : Env) (w : World) (key : js_string) (err : js_value) :
  keyToUse env (localStorage w !! API_KEY_STORAGE_KEY) = Some key → key ≠ [] →
  initializeOpenAI key = Some err →
  rerun initializeOpenAI env w =
    {| ui := {| apiKey := apiKey (ui w);
                error := Some (lit "Failed to initialize with API key");
                isInitialized := isInitialized (ui w) |};
       localStorage :=
         if js_truthy (envApiKey env) then localStorage w
         else delete API_KEY_STORAGE_KEY (localStorage w);
       log :=
         log w ++ [GetItem API_KEY_STORAGE_KEY; InitCall key]
         ++ (if js_truthy (envApiKey env) then []
             else [RemoveItem API_KEY_STORAGE_KEY]) |}.
Proof.
  intros Hkey Hne Hthrow. apply js_truthy_Some in Hne.
  run_handler. rewrite Hkey, Hne, Hthrow.
  destruct (js_truthy (envApiKey env)); cbn; by rewrite <- !app_assoc.
Qed.

(** The three cases above are all there is. *)
Lemma keyToUse_cases (env : Env) (saved : js_opt_string) :
  js_truthy (keyToUse env saved) = false
  ∨ ∃ key, keyToUse env saved = Some key ∧ key ≠ [].
Proof.
  destruct (keyToUse env saved) as [[|c s]|]; simpl; auto.
  right. by exists (c :: s).
Qed.

Lemma keyToUse_env (env : Env) (saved : js_opt_string) (E : js_string) :
  envApiKey env = Some E → E ≠ [] → keyToUse env saved = Some E.
Proof.
  intros HE Hne. unfold keyToUse, js_or. rewrite HE.
  apply js_truthy_Some in Hne. by rewrite Hne.
Qed.

Lemma keyToUse_saved (env : Env) (saved : js_opt_string) :
  js_truthy (envApiKey env) = false → keyToUse env saved = saved.
Proof. intros H. unfold keyToUse, js_or. by rewrite H. Qed.

Lemma envApiKey_falsy (env : Env) :
  js_truthy (envApiKey env) = false
  ↔ js_truthy (import_meta_env env) = false
    ∧ js_truthy (window_process_env env) = false.
Proof.
  unfold envApiKey, js_or.
  destruct (js_truthy (import_meta_env env)) eqn:H; [rewrite H|]; split.
  - discriminate.
  - by intros [? _].
  - done.
  - by intros [_ ?].
Qed.

Lemma mount_init_calls (env : Env) (st : gmap js_string js_string) (key : js_string) :
  keyToUse env (st !! API_KEY_STORAGE_KEY) = Some key → key ≠ [] →
  init_calls (log (mount env st)) = [key].
Proof.
  intros Hkey Hne. destruct (initializeOpenAI key) as [err|] eqn:Hinit.
  - rewrite (mount_threw env st key err) by done. cbn.
    by destruct (js_truthy (envApiKey env)).
  - by rewrite (mount_returned env st key).
Qed.

Lemma notifications_app (l l' : list Effect) :
  notifications (l ++ l') = notifications l ++ notifications l'.
Proof. apply omap_app. Qed.

Lemma init_calls_app (l l' : list Effect) :
  init_calls (l ++ l') = init_calls l ++ init_calls l'.
Proof. apply omap_app. Qed.

Lemma parent_view_app (l : list Effect) (e : list Effect) (b : bool) :
  notifications e = [b] → parent_view (l ++ e) = Some b.
Proof.
  intros He. unfold parent_view. rewrite notifications_app, He. apply last_snoc.
Qed.

Lemma last_init_call_app (l : list Effect) (e : list Effect) (key : js_string) :
  init_calls e = [key] → last_init_call (l ++ e) = Some key.
Proof.
  intros He. unfold last_init_call. rewrite init_calls_app, He. apply last_snoc.
Qed.

End Handlers.

(** Reduce the projections of record expressions and nothing else. *)
Ltac fields := cbn [ui localStorage log apiKey error isInitialized fst snd].

(** Case analysis on what [handleSubmit] does in state [w]. *)
Ltac submit_cases init w :=
  let Hblank := fresh "Hblank" in
  let Hinit := fresh "Hinit" in
  let err := fresh "err" in
  destruct (decide (trim (apiKey (ui w)) = [])) as [Hblank|Hblank];
  [ rewrite (handleSubmit_required init w Hblank)
  | destruct (init (trim (apiKey (ui w)))) as [err|] eqn:Hinit;
    [ rewrite (handleSubmit_threw init w err Hblank Hinit)
    | rewrite (handleSubmit_returned init w Hblank Hinit) ] ].

(** Case analysis on what a further run of the effect does in state [w]. *)
Ltac rerun_cases init env w :=
  let Hkey := fresh "Hkey" in
  let Hne := fresh "Hne" in
  let Hinit := fresh "Hinit" in
  let key := fresh "key" in
  let err := fresh "err" in
  destruct (keyToUse_cases env (localStorage w !! API_KEY_STORAGE_KEY))
    as [Hkey|(key & Hkey & Hne)];
  [ rewrite (rerun_no_key init env w Hkey)
  | destruct (init key) as [err|] eqn:Hinit;
    [ rewrite (rerun_threw init env w key err Hkey Hne Hinit)
    | rewrite (rerun_returned init env w key Hkey Hne Hinit) ] ].

(** Case analysis on what the mount effect does over storage [st]. *)
Ltac mount_cases init env st :=
  let Hkey := fresh "Hkey" in
  let Hne := fresh "Hne" in
  let Hinit := fresh "Hinit" in
  let key := fresh "key" in
  let err := fresh "err" in
  destruct (keyToUse_cases env (st !! API_KEY_STORAGE_KEY))
    as [Hkey|(key & Hkey & Hne)];
  [ rewrite (mount_no_key init env st Hkey)
  | destruct (init key) as [err|] eqn:Hinit;
    [ rewrite (mount_threw init env st key err Hkey Hne Hinit)
    | rewrite (mount_returned init env st key Hkey Hne Hinit) ] ].

(** ** Manual submission and reset *)

Section Claims.

Variable initializeOpenAI : js_string → option js_value.

Local Abbreviation handleSubmit := (handleSubmit initializeOpenAI).
Local Abbreviation mount := (mount initializeOpenAI).
Local Abbreviation reachable := (reachable initializeOpenAI).
Local Abbreviation step := (step initializeOpenAI).
Local Abbreviation rerun := (rerun initializeOpenAI).
Local Abbreviation reachable_stable := (reachable_stable initializeOpenAI).

(** C1. Submitting an input [C] whose trimmed form is not empty and is
    accepted by [initializeOpenAI] sets [isInitialized] to true, calls the
    parent callback with true and leaves exactly [trim C] in the storage
    slot; the calls made are, in order, the initializer on [trim C], the
    storage write and the notification. *)
Theorem submit_accepted (w : World) (C : js_string) :
  apiKey (ui w) = C →
  trim C ≠ [] →
  initializeOpenAI (trim C) = None →
  isInitialized (ui (exec handleSubmit w)) = true
  ∧ log (exec handleSubmit w) =
      log w ++ [InitCall (trim C); SetItem API_KEY_STORAGE_KEY (trim C); Notify true]
  ∧ parent_view (log (exec handleSubmit w)) = Some true
  ∧ localStorage (exec handleSubmit w) !! API_KEY_STORAGE_KEY = Some (trim C).
Proof.
  intros <- Hne Hok. rewrite handleSubmit_returned by done. cbn.
  repeat split; [by apply parent_view_app|apply lookup_insert_eq].
Qed.

(** C2. Submitting an input that is empty or made of white space only sets
    the error message to "API key is required", makes no call at all (none
    to [initializeOpenAI], none to the storage, none to the parent), and
    leaves the storage and [isInitialized] as they were. *)
Theorem submit_blank (w : World) (C : js_string) :
  apiKey (ui w) = C →
  forallb is_trimmed_char C = true →
  error (ui (exec handleSubmit w)) = Some (lit "API key is required")
  ∧ log (exec handleSubmit w) = log w
  ∧ init_calls (log (exec handleSubmit w)) = init_calls (log w)
  ∧ localStorage (exec handleSubmit w) = localStorage w
  ∧ isInitialized (ui (exec handleSubmit w)) = isInitialized (ui w).
Proof.
  intros <- Hblank. apply trim_nil_iff in Hblank.
  by rewrite handleSubmit_required.
Qed.

(** C8. Submitting an input whose trimmed form is not empty and on which
    [initializeOpenAI] throws [err] sets the error message to
    "Failed to initialize OpenAI: " followed by the message of [err] when
    it is an [Error] and by its string form otherwise, writes nothing to the
    storage and leaves [isInitialized] as it was. *)
Theorem submit_rejected (w : World) (C : js_string) (err : js_value) :
  apiKey (ui w) = C →
  trim C ≠ [] →
  initializeOpenAI (trim C) = Some err →
  error (ui (exec handleSubmit w)) =
    Some (lit "Failed to initialize OpenAI: "
          ++ match err with JsError message => message | JsOther text => text end)
  ∧ localStorage (exec handleSubmit w) = localStorage w
  ∧ storage_writes (log (exec handleSubmit w)) = storage_writes (log w)
  ∧ notifications (log (exec handleSubmit w)) = notifications (log w)
  ∧ isInitialized (ui (exec handleSubmit w)) = isInitialized (ui w).
Proof.
  intros <- Hne Hthrow. rewrite (handleSubmit_threw _ _ err) by done. cbn.
  unfold storage_writes. rewrite notifications_app, omap_app. cbn.
  by rewrite !app_nil_r.
Qed.

(** C9. Reset is idempotent: a second reset right after a first leaves the
    state, the storage and the value held by the parent as the first left
    them; each of the two calls the parent with false. *)
Theorem reset_idempotent (w : World) :
  observable (exec handleReset (exec handleReset w)) = observable (exec handleReset w)
  ∧ parent_view (log (exec handleReset w)) = Some false
  ∧ log (exec handleReset (exec handleReset w)) =
      log (exec handleReset w) ++ [RemoveItem API_KEY_STORAGE_KEY; Notify false].
Proof.
  rewrite !handleReset_eq. unfold observable. fields.
  rewrite delete_delete_eq, !(parent_view_app _ _ false) by done. done.
Qed.

(** ** Startup *)

(** C3. When the environment supplies a credential [E] and the storage
    holds one too, the mount effect passes [E], and only [E], to
    [initializeOpenAI]; and whenever the credential it chose is accepted,
    the effect sets [isInitialized] to true, sets the input value to that
    credential and calls the parent with true. *)
Theorem mount_prefers_env (env : Env) (st : gmap js_string js_string) :
  (∀ E S : js_string,
     envApiKey env = Some E → E ≠ [] →
     st !! API_KEY_STORAGE_KEY = Some S →
     keyToUse env (st !! API_KEY_STORAGE_KEY) = Some E
     ∧ init_calls (log (mount env st)) = [E])
  ∧ (∀ key : js_string,
       keyToUse env (st !! API_KEY_STORAGE_KEY) = Some key → key ≠ [] →
       initializeOpenAI key = None →
       isInitialized (ui (mount env st)) = true
       ∧ apiKey (ui (mount env st)) = key
       ∧ notifications (log (mount env st)) = [true]).
Proof.
  split.
  - intros E S HE Hne _.
    pose proof (keyToUse_env env (st !! API_KEY_STORAGE_KEY) E HE Hne) as Hkey.
    split; [done|]. by apply mount_init_calls.
  - intros key Hkey Hne Hok. by rewrite (mount_returned _ env st key).
Qed.

(** C4. When [initializeOpenAI] throws on the credential the mount effect
    chose, the error message is "Failed to initialize with API key", and
    the storage slot is removed exactly when the environment supplied no
    credential; in that case the chosen credential is the stored one and
    the slot is empty afterwards. *)
Theorem mount_rejected (env : Env) (st : gmap js_string js_string)
    (key : js_string) (err : js_value) :
  keyToUse env (st !! API_KEY_STORAGE_KEY) = Some key → key ≠ [] →
  initializeOpenAI key = Some err →
  error (ui (mount env st)) = Some (lit "Failed to initialize with API key")
  ∧ isInitialized (ui (mount env st)) = false
  ∧ (RemoveItem API_KEY_STORAGE_KEY ∈ log (mount env st)
     ↔ js_truthy (envApiKey env) = false)
  ∧ (js_truthy (envApiKey env) = true →
     localStorage (mount env st) = st
     ∧ storage_writes (log (mount env st)) = [])
  ∧ (js_truthy (envApiKey env) = false →
     st !! API_KEY_STORAGE_KEY = Some key
     ∧ storage_writes (log (mount env st)) = [RemoveItem API_KEY_STORAGE_KEY]
     ∧ localStorage (mount env st) = delete API_KEY_STORAGE_KEY st
     ∧ localStorage (mount env st) !! API_KEY_STORAGE_KEY = None).
Proof.
  intros Hkey Hne Hthrow. rewrite (mount_threw _ env st key err) by done. cbn.
  split; [done|]. split; [done|].
  destruct (js_truthy (envApiKey env)) eqn:Henv; cbn.
  - split; [|split; [done|discriminate]].
    split; [|discriminate]. intros Hin.
    repeat (apply elem_of_cons in Hin as [?|Hin]; [discriminate|]).
    by apply elem_of_nil in Hin.
  - split; [|split; [discriminate|]].
    + split; [done|]. intros _. do 2 apply list_elem_of_further.
      apply list_elem_of_here.
    + intros _. rewrite <- Hkey, (keyToUse_saved env _ Henv).
      repeat split. apply lookup_delete_eq.
Qed.

(** C10. An environment credential that is the empty string counts as
    absent: with no non-empty value in either environment source the mount
    effect does what it does with no environment at all, that is, it uses
    the stored credential when that is a non-empty string and otherwise
    calls nothing but the storage read and leaves the initial state. *)
Theorem mount_empty_env (env : Env) (st : gmap js_string js_string) :
  js_truthy (envApiKey env) = false →
  mount env st = mount no_env st
  ∧ keyToUse env (st !! API_KEY_STORAGE_KEY) = st !! API_KEY_STORAGE_KEY
  ∧ (∀ S : js_string,
       st !! API_KEY_STORAGE_KEY = Some S → S ≠ [] →
       init_calls (log (mount env st)) = [S])
  ∧ (js_truthy (st !! API_KEY_STORAGE_KEY) = false →
     mount env st =
       {| ui := initial_ui; localStorage := st;
          log := [GetItem API_KEY_STORAGE_KEY] |}).
Proof.
  intros Henv.
  pose proof (keyToUse_saved env (st !! API_KEY_STORAGE_KEY) Henv) as Hsaved.
  split; [|split; [done|split]].
  - run_handler. rewrite Hsaved, Henv.
    by rewrite (keyToUse_saved no_env (st !! API_KEY_STORAGE_KEY) eq_refl).
  - intros S HS Hne. apply mount_init_calls; [|done]. by rewrite Hsaved.
  - intros Hst. apply mount_no_key. by rewrite Hsaved.
Qed.

(** ** Invariants of a mounted instance *)

Lemma reachable_stable_reachable (env : Env) (st : gmap js_string js_string)
    (w : World) :
  reachable_stable env st w → reachable env st w.
Proof.
  induction 1 as [|w ev Hw IH Hen].
  - apply reachable_mount.
  - by apply reachable_step.
Qed.

(** While the effect runs once, a state in which the success message is
    shown carries no error. *)
Lemma stable_initialized_no_error (env : Env) (st : gmap js_string js_string)
    (w : World) :
  reachable_stable env st w →
  isInitialized (ui w) = true → error (ui w) = None.
Proof.
  induction 1 as [|w ev Hw IH Hen].
  - mount_cases initializeOpenAI env st; cbn; congruence.
  - destruct ev as [v| |]; cbn in Hen |- *.
    + apply negb_true_iff in Hen. run_handler. congruence.
    + submit_cases initializeOpenAI w; cbn; [| |done].
      all: apply negb_true_iff in Hen; congruence.
    + rewrite handleReset_eq. cbn. discriminate.
Qed.




(** The value the parent holds follows [isInitialized]. *)
Lemma reachable_parent_view (env : Env) (st : gmap js_string js_string) (w : World) :
  reachable env st w →
  if isInitialized (ui w) then parent_view (log w) = Some true
  else parent_view (log w) = Some false ∨ notifications (log w) = [].
Proof.
  induction 1 as [|w ev Hw IH Hen|w Hw IH].
  - mount_cases initializeOpenAI env st; cbn; auto.
    right. by destruct (js_truthy (envApiKey env)).
  - destruct ev as [v| |]; cbn in Hen |- *.
    + apply negb_true_iff in Hen. run_handler. by rewrite Hen in IH |- *.
    + apply negb_true_iff in Hen. rewrite Hen in IH.
      submit_cases initializeOpenAI w; cbn; rewrite ?Hen.
      * done.
      * unfold parent_view in *. rewrite notifications_app. cbn.
        by rewrite app_nil_r.
      * by apply parent_view_app.
    + rewrite handleReset_eq. cbn. left. by apply parent_view_app.
  - rerun_cases initializeOpenAI env w; fields.
    + unfold parent_view in *. by rewrite notifications_app, app_nil_r.
    + assert (notifications
                ([GetItem API_KEY_STORAGE_KEY; InitCall key]
                 ++ (if js_truthy (envApiKey env) then []
                     else [RemoveItem API_KEY_STORAGE_KEY])) = []) as Hnone
        by (by destruct (js_truthy (envApiKey env))).
      unfold parent_view in *. by rewrite notifications_app, Hnone, app_nil_r.
    + by apply parent_view_app.
Qed.


(** C7, amended. When the environment supplies a credential [E] that
    [initializeOpenAI] accepts, the mount effect reads the storage slot but
    does not use what it read: over any storage it ends with
    [isInitialized] true after the same calls and leaves the storage as it
    was. Reset deletes the storage slot and nothing else, so a later mount
    in the same environment passes [E] to [initializeOpenAI] again and ends
    initialized. *)
Theorem env_credential_survives_reset (env : Env) (E : js_string) :
  envApiKey env = Some E → E ≠ [] →
  initializeOpenAI E = None →
  (∀ st, mount env st =
         {| ui := {| apiKey := E; error := None; isInitialized := true |};
            localStorage := st;
            log := [GetItem API_KEY_STORAGE_KEY; InitCall E; Notify true] |})
  ∧ (∀ w, localStorage (exec handleReset w) =
          delete API_KEY_STORAGE_KEY (localStorage w))
  ∧ (∀ st,
       isInitialized
         (ui (mount env (localStorage (exec handleReset (mount env st))))) = true
       ∧ init_calls
           (log (mount env (localStorage (exec handleReset (mount env st))))) = [E]).
Proof.
  intros HE Hne Hok.
  assert (∀ st, mount env st =
         {| ui := {| apiKey := E; error := None; isInitialized := true |};
            localStorage := st;
            log := [GetItem API_KEY_STORAGE_KEY; InitCall E; Notify true] |})
    as Hmount.
  { intros st. apply mount_returned; [|done..]. by apply keyToUse_env. }
  split; [done|]. split.
  - intros w. by rewrite handleReset_eq.
  - intros st. by rewrite (Hmount (localStorage _)).
Qed.

End Claims.

(** ** The theorems at sample inputs *)

Lemma submit_accepted_witness :
  localStorage (exec (handleSubmit accepts_sk_good) (typed (lit "  sk-good ")))
    !! API_KEY_STORAGE_KEY = Some (trim (lit "  sk-good ")).
Proof.
  apply (submit_accepted accepts_sk_good (typed (lit "  sk-good ")) (lit "  sk-good ")).
  - reflexivity.
  - by vm_compute.
  - by vm_compute.
Defined.

Lemma submit_blank_witness :
  error (ui (exec (handleSubmit accepts_sk_good) (typed (lit "   "))))
  = Some (lit "API key is required").
Proof.
  apply (submit_blank accepts_sk_good (typed (lit "   ")) (lit "   ")).
  - reflexivity.
  - by vm_compute.
Defined.

Lemma submit_rejected_witness :
  error (ui (exec (handleSubmit throws_text) (typed (lit "sk-any "))))
  = Some (lit "Failed to initialize OpenAI: " ++ lit "quota exceeded").
Proof.
  apply (submit_rejected throws_text (typed (lit "sk-any ")) (lit "sk-any ")
           (JsOther (lit "quota exceeded"))).
  - reflexivity.
  - by vm_compute.
  - reflexivity.
Defined.

Lemma mount_prefers_env_witness :
  init_calls (log (mount accepts_sk_good env_sk_good (stored (lit "sk-old"))))
  = [lit "sk-good"]
  ∧ apiKey (ui (mount accepts_sk_good env_sk_good (stored (lit "sk-old"))))
    = lit "sk-good".
Proof.
  destruct (mount_prefers_env accepts_sk_good env_sk_good (stored (lit "sk-old")))
    as [Hprefers Hsucceeds].
  split.
  - apply (Hprefers (lit "sk-good") (lit "sk-old")).
    + reflexivity.
    + by vm_compute.
    + by vm_compute.
  - apply (Hsucceeds (lit "sk-good")).
    + by vm_compute.
    + by vm_compute.
    + by vm_compute.
Defined.

Lemma mount_rejected_witness :
  error (ui (mount accepts_sk_good no_env (stored (lit "sk-old"))))
  = Some (lit "Failed to initialize with API key").
Proof.
  apply (mount_rejected accepts_sk_good no_env (stored (lit "sk-old")) (lit "sk-old")
           (JsError (lit "Incorrect API key provided"))).
  - by vm_compute.
  - by vm_compute.
  - by vm_compute.
Defined.

Lemma mount_empty_env_witness :
  mount accepts_sk_good env_empty (stored (lit "sk-good"))
  = mount accepts_sk_good no_env (stored (lit "sk-good")).
Proof.
  apply (mount_empty_env accepts_sk_good env_empty (stored (lit "sk-good"))).
  reflexivity.
Defined.




Lemma env_credential_survives_reset_witness :
  isInitialized
    (ui (mount accepts_sk_good env_sk_good
           (localStorage
              (exec handleReset
                 (mount accepts_sk_good env_sk_good (stored (lit "sk-old")))))))
  = true
  ∧ init_calls
      (log (mount accepts_sk_good env_sk_good
              (localStorage
                 (exec handleReset
                    (mount accepts_sk_good env_sk_good (stored (lit "sk-old")))))))
    = [lit "sk-good"].
Proof.
  destruct (env_credential_survives_reset accepts_sk_good env_sk_good (lit "sk-good"))
    as (_ & _ & Hagain).
  - reflexivity.
  - by vm_compute.
  - by vm_compute.
  - apply (Hagain (stored (lit "sk-old"))).
Defined.

(** ** Where the specification and the component part *)



(** C7 as stated fails. With an accepted credential in the environment the
    mount effect still reads the storage slot before it ends initialized. *)
Lemma env_mount_reads_storage :
  isInitialized (ui (mount accepts_sk_good env_sk_good (stored (lit "sk-old")))) = true
  ∧ storage_reads (log (mount accepts_sk_good env_sk_good (stored (lit "sk-old"))))
    = [API_KEY_STORAGE_KEY]
  ∧ storage_reads (log (mount accepts_sk_good env_sk_good (stored (lit "sk-old"))))
    ≠ [].
Proof. split; [|split]; by vm_compute. Qed.

(** * Further properties of the component *)

(** ** The trimmed input *)

Lemma trimStart_head (s : js_string) (c : code_unit) (r : js_string) :
  trimStart s = c :: r → is_trimmed_char c = false.
Proof.
  induction s as [|d s IH]; simpl; [discriminate|].
  destruct (is_trimmed_char d) eqn:Hd; [exact IH|].
  by intros [= <- _].
Qed.

Lemma trimStart_fixed (s : js_string) :
  match s with [] => True | c :: _ => is_trimmed_char c = false end →
  trimStart s = s.
Proof. destruct s as [|c s]; simpl; [done|]. by intros ->. Qed.

Lemma trimStart_idemp (s : js_string) : trimStart (trimStart s) = trimStart s.
Proof.
  apply trimStart_fixed. destruct (trimStart s) as [|c r] eqn:H; [done|].
  by apply (trimStart_head s c r).
Qed.

(** The last code unit of a non-empty suffix is the last of the whole. *)
Lemma last_suffix {A} (p u : list A) (x : A) :
  last u = Some x → last (p ++ u) = Some x.
Proof. intros H. rewrite last_app, H. done. Qed.

Lemma trim_head (s : js_string) (c : code_unit) (r : js_string) :
  trim s = c :: r → is_trimmed_char c = false.
Proof.
  unfold trim, trimEnd. intros H.
  destruct (trimStart s) as [|d t] eqn:Ht; [discriminate|].
  pose proof (trimStart_head s d t Ht) as Hd.
  destruct (trimStart_suffix (rev (d :: t))) as [p Hp].
  assert (last (trimStart (rev (d :: t))) = Some c) as Hlast.
  { rewrite <- (rev_involutive (trimStart (rev (d :: t)))), H.
    simpl. by rewrite last_snoc. }
  apply (last_suffix p) in Hlast. rewrite <- Hp in Hlast.
  simpl in Hlast. rewrite last_snoc in Hlast. congruence.
Qed.

Lemma trim_last (s : js_string) (c : code_unit) :
  last (trim s) = Some c → is_trimmed_char c = false.
Proof.
  unfold trim, trimEnd. intros H.
  destruct (trimStart (rev (trimStart s))) as [|d t] eqn:Ht; [discriminate|].
  simpl in H. rewrite last_snoc in H. injection H as <-.
  by apply (trimStart_head _ d t Ht).
Qed.

Lemma trim_idemp (s : js_string) : trim (trim s) = trim s.
Proof.
  destruct (trim s) as [|c r] eqn:H; [done|].
  pose proof (trim_head s c r H) as Hc.
  assert (trimStart (c :: r) = c :: r) as Hfix by (simpl; by rewrite Hc).
  unfold trim at 1, trimEnd. rewrite Hfix.
  assert (trimStart (rev (c :: r)) = rev (c :: r)) as ->; [|apply rev_involutive].
  apply trimStart_fixed.
  destruct (rev (c :: r)) as [|d t] eqn:Hrev; [done|].
  apply (trim_last s). rewrite H.
  rewrite <- (rev_involutive (c :: r)), Hrev. simpl. apply last_snoc.
Qed.

Section Further.

Variable initializeOpenAI : js_string → option js_value.

Local Abbreviation handleSubmit := (handleSubmit initializeOpenAI).
Local Abbreviation mount := (mount initializeOpenAI).
Local Abbreviation reachable := (reachable initializeOpenAI).
Local Abbreviation step := (step initializeOpenAI).
Local Abbreviation rerun := (rerun initializeOpenAI).
Local Abbreviation reachable_stable := (reachable_stable initializeOpenAI).

(** ** What the component does to the storage *)

(** X1. The component owns one storage key: in every reachable state every
    other key of [localStorage] holds what it held when the page loaded. *)
Theorem storage_frame (env : Env) (st : gmap js_string js_string) (w : World)
    (k : js_string) :
  reachable env st w →
  k ≠ API_KEY_STORAGE_KEY →
  localStorage w !! k = st !! k.
Proof.
  intros Hw Hk. induction Hw as [|w ev Hw IH Hen|w Hw IH].
  - mount_cases initializeOpenAI env st; fields; [done| |done].
    destruct (js_truthy (envApiKey env)); [done|]. by apply lookup_delete_ne.
  - destruct ev as [v| |]; cbn [step].
    + run_handler. exact IH.
    + submit_cases initializeOpenAI w; fields; [done|done|].
      by rewrite lookup_insert_ne.
    + rewrite handleReset_eq. fields. by rewrite lookup_delete_ne.
  - rerun_cases initializeOpenAI env w; fields; [done| |done].
    destruct (js_truthy (envApiKey env)); [done|]. by rewrite lookup_delete_ne.
Qed.

(** X2. Every value the component writes to the storage is written under
    [API_KEY_STORAGE_KEY], is not empty, equals its own trimmed form and was
    accepted by [initializeOpenAI]: a rejected or blank key is never saved. *)
Theorem persisted_keys_accepted (env : Env) (st : gmap js_string js_string)
    (w : World) (k v : js_string) :
  reachable env st w →
  SetItem k v ∈ log w →
  k = API_KEY_STORAGE_KEY ∧ v ≠ [] ∧ trim v = v ∧ initializeOpenAI v = None.
Proof.
  intros Hw. induction Hw as [|w ev Hw IH Hen|w Hw IH]; intros Hin; cycle 2.
  - revert Hin. rerun_cases initializeOpenAI env w; fields; intros Hin;
      (apply elem_of_app in Hin as [Hin|Hin]; [by apply IH|]).
    + apply list_elem_of_singleton in Hin. discriminate.
    + apply elem_of_app in Hin as [Hin|Hin].
      * repeat (apply elem_of_cons in Hin as [?|Hin]; [discriminate|]).
        by apply elem_of_nil in Hin.
      * destruct (js_truthy (envApiKey env)).
        -- by apply elem_of_nil in Hin.
        -- apply list_elem_of_singleton in Hin. discriminate.
    + repeat (apply elem_of_cons in Hin as [?|Hin]; [discriminate|]).
      by apply elem_of_nil in Hin.
  - revert Hin. mount_cases initializeOpenAI env st; fields; intros Hin.
    + apply list_elem_of_singleton in Hin. discriminate.
    + apply elem_of_app in Hin as [Hin|Hin].
      * repeat (apply elem_of_cons in Hin as [?|Hin]; [discriminate|]).
        by apply elem_of_nil in Hin.
      * destruct (js_truthy (envApiKey env)).
        -- by apply elem_of_nil in Hin.
        -- apply list_elem_of_singleton in Hin. discriminate.
    + repeat (apply elem_of_cons in Hin as [?|Hin]; [discriminate|]).
      by apply elem_of_nil in Hin.
  - revert Hin. destruct ev as [v'| |]; cbn [step].
    + run_handler. exact IH.
    + submit_cases initializeOpenAI w; fields; [exact IH| |]; intros Hin.
      * apply elem_of_app in Hin as [Hin|Hin]; [by apply IH|].
        apply list_elem_of_singleton in Hin. discriminate.
      * apply elem_of_app in Hin as [Hin|Hin]; [by apply IH|].
        apply elem_of_cons in Hin as [?|Hin]; [discriminate|].
        apply elem_of_cons in Hin as [[= -> ->]|Hin].
        -- repeat split; [done|apply trim_idemp|done].
        -- apply list_elem_of_singleton in Hin. discriminate.
    + rewrite handleReset_eq. fields. intros Hin.
      apply elem_of_app in Hin as [Hin|Hin]; [by apply IH|].
      repeat (apply elem_of_cons in Hin as [?|Hin]; [discriminate|]).
      by apply elem_of_nil in Hin.
Qed.

(** The storage slot holds what it held at page load or a trimmed input. *)
Lemma reachable_slot (env : Env) (st : gmap js_string js_string) (w : World)
    (v : js_string) :
  reachable env st w →
  localStorage w !! API_KEY_STORAGE_KEY = Some v →
  st !! API_KEY_STORAGE_KEY = Some v ∨ trim v = v.
Proof.
  intros Hw. induction Hw as [|w ev Hw IH Hen|w Hw IH].
  - mount_cases initializeOpenAI env st; fields; [by left| |by left].
    destruct (js_truthy (envApiKey env)); [by left|].
    by rewrite lookup_delete_eq.
  - destruct ev as [v'| |]; cbn [step].
    + run_handler. exact IH.
    + submit_cases initializeOpenAI w; fields; [exact IH|exact IH|].
      rewrite lookup_insert_eq. intros [= <-]. right. apply trim_idemp.
    + rewrite handleReset_eq. fields. by rewrite lookup_delete_eq.
  - rerun_cases initializeOpenAI env w; fields; [exact IH| |exact IH].
    destruct (js_truthy (envApiKey env)); [exact IH|].
    by rewrite lookup_delete_eq.
Qed.

(** X3. [initializeOpenAI] is never called with the empty string: each of
    its arguments is the non-empty credential found at startup or a
    non-empty trimmed input. *)
Theorem initializer_never_gets_empty_key (env : Env) (st : gmap js_string js_string)
    (w : World) (key : js_string) :
  reachable env st w →
  key ∈ init_calls (log w) →
  key ≠ []
  ∧ (keyToUse env (st !! API_KEY_STORAGE_KEY) = Some key ∨ trim key = key).
Proof.
  intros Hw. induction Hw as [|w ev Hw IH Hen|w Hw IH]; intros Hin; cycle 2.
  - assert (∀ key', keyToUse env (localStorage w !! API_KEY_STORAGE_KEY) = Some key' →
            keyToUse env (st !! API_KEY_STORAGE_KEY) = Some key' ∨ trim key' = key')
      as Hchosen.
    { intros key' Hk. destruct (js_truthy (envApiKey env)) eqn:Henv.
      - left. revert Hk. unfold keyToUse, js_or. by rewrite Henv.
      - rewrite (keyToUse_saved env _ Henv) in Hk.
        rewrite (keyToUse_saved env _ Henv).
        by apply (reachable_slot env st w). }
    revert Hin. rerun_cases initializeOpenAI env w; fields;
      rewrite init_calls_app; intros Hin;
      (apply elem_of_app in Hin as [Hin|Hin]; [by apply IH|]).
    + by apply elem_of_nil in Hin.
    + assert (key = key0) as ->; [|by auto].
      destruct (js_truthy (envApiKey env));
        by apply list_elem_of_singleton in Hin.
    + apply list_elem_of_singleton in Hin as ->. auto.
  - revert Hin. destruct (keyToUse_cases env (st !! API_KEY_STORAGE_KEY))
      as [Hkey|(key' & Hkey & Hne)].
    + rewrite (mount_no_key _ env st Hkey). fields. intros Hin.
      by apply elem_of_nil in Hin.
    + rewrite (mount_init_calls _ env st key' Hkey Hne). intros Hin.
      apply list_elem_of_singleton in Hin as ->. auto.
  - revert Hin. destruct ev as [v| |]; cbn [step].
    + run_handler. exact IH.
    + submit_cases initializeOpenAI w; fields; [exact IH| |];
        rewrite init_calls_app; intros Hin;
        (apply elem_of_app in Hin as [Hin|Hin]; [by apply IH|]);
        apply list_elem_of_singleton in Hin as ->;
        (split; [done|right; apply trim_idemp]).
    + rewrite handleReset_eq. fields. rewrite init_calls_app, app_nil_r.
      exact IH.
Qed.

(** Without an environment credential, an initialized instance has its
    key in the slot, and that key is the last one tried and was accepted. *)
Lemma stored_key_invariant (env : Env) (st : gmap js_string js_string)
    (w : World) :
  js_truthy (envApiKey env) = false →
  reachable env st w →
  js_truthy (localStorage w !! API_KEY_STORAGE_KEY) = isInitialized (ui w)
  ∧ (isInitialized (ui w) = true →
     ∃ k, localStorage w !! API_KEY_STORAGE_KEY = Some k
          ∧ last_init_call (log w) = Some k
          ∧ initializeOpenAI k = None).
Proof.
  intros Henv Hw. induction Hw as [|w ev Hw [IH1 IH2] Hen|w Hw [IH1 IH2]].
  - pose proof (keyToUse_saved env (st !! API_KEY_STORAGE_KEY) Henv) as Hsaved.
    mount_cases initializeOpenAI env st; fields.
    + rewrite Hsaved in Hkey. by split.
    + rewrite Henv, lookup_delete_eq. by split.
    + rewrite Hsaved in Hkey. rewrite Hkey.
      split; [by apply js_truthy_Some|]. intros _. by exists key.
  - destruct ev as [v| |]; cbn [step enabled] in Hen |- *.
    + run_handler. by split.
    + apply negb_true_iff in Hen.
      submit_cases initializeOpenAI w; fields.
      * by split.
      * split; [done|]. congruence.
      * rewrite lookup_insert_eq. split; [by apply js_truthy_Some|].
        intros _. exists (trim (apiKey (ui w))).
        split; [done|]. split; [by apply last_init_call_app|done].
    + rewrite handleReset_eq. fields. rewrite lookup_delete_eq. by split.
  - pose proof (keyToUse_saved env (localStorage w !! API_KEY_STORAGE_KEY) Henv)
      as Hsaved.
    destruct (isInitialized (ui w)) eqn:Hi.
    + destruct (IH2 eq_refl) as (k & Hk & Hlast & Hok).
      assert (k ≠ []) as Hne by (apply js_truthy_Some; by rewrite <- Hk).
      rewrite (rerun_returned _ env w k); [|by rewrite Hsaved|done..].
      fields. split; [done|]. intros _. exists k.
      split; [done|]. split; [by apply last_init_call_app|done].
    + rewrite rerun_no_key by (by rewrite Hsaved).
      fields. rewrite Hi. by split.
Qed.

(** X4. Without an environment credential the storage slot follows the
    state: in every reachable state the slot holds a non-empty string exactly
    when [isInitialized] is true, and then it holds the key of the most
    recent call of [initializeOpenAI]. *)
Theorem stored_key_follows_state (env : Env) (st : gmap js_string js_string)
    (w : World) :
  js_truthy (envApiKey env) = false →
  reachable env st w →
  js_truthy (localStorage w !! API_KEY_STORAGE_KEY) = isInitialized (ui w)
  ∧ (isInitialized (ui w) = true →
     localStorage w !! API_KEY_STORAGE_KEY = last_init_call (log w)).
Proof.
  intros Henv Hw.
  destruct (stored_key_invariant env st w Henv Hw) as [H1 H2].
  split; [done|]. intros Hi. destruct (H2 Hi) as (k & -> & -> & _). done.
Qed.

(** ** Reloading the page *)

(** X5. A saved key survives a reload: after a submission that
    [initializeOpenAI] accepted, a new instance mounted over the resulting
    storage, with no environment credential, ends initialized with the
    trimmed key, after one storage read, one initializer call and one
    notification. *)
Theorem submit_then_reload (env : Env) (w : World) :
  js_truthy (envApiKey env) = false →
  trim (apiKey (ui w)) ≠ [] →
  initializeOpenAI (trim (apiKey (ui w))) = None →
  mount env (localStorage (exec handleSubmit w)) =
    {| ui := {| apiKey := trim (apiKey (ui w)); error := None;
                isInitialized := true |};
       localStorage := localStorage (exec handleSubmit w);
       log := [GetItem API_KEY_STORAGE_KEY; InitCall (trim (apiKey (ui w)));
               Notify true] |}.
Proof.
  intros Henv Hne Hok. apply mount_returned; [|done..].
  rewrite (keyToUse_saved env _ Henv), handleSubmit_returned by done.
  fields. apply lookup_insert_eq.
Qed.

(** X6. A reset survives a reload: with no environment credential, a new
    instance mounted over the storage left by [handleReset] finds no
    credential, whatever the storage held before: it calls neither
    [initializeOpenAI] nor the parent and shows the initial state. *)
Theorem reset_then_reload (env : Env) (w : World) :
  js_truthy (envApiKey env) = false →
  mount env (localStorage (exec handleReset w)) =
    {| ui := initial_ui;
       localStorage := delete API_KEY_STORAGE_KEY (localStorage w);
       log := [GetItem API_KEY_STORAGE_KEY] |}.
Proof.
  intros Henv. rewrite handleReset_eq. fields. apply mount_no_key.
  by rewrite (keyToUse_saved env _ Henv), lookup_delete_eq.
Qed.

(** X7. A stored key that [initializeOpenAI] rejects at startup is tried
    once only: with no environment credential, the instance mounted after
    such a failure finds no credential, calls no initializer and shows no
    error. *)
Theorem rejected_stored_key_then_reload (env : Env) (st : gmap js_string js_string)
    (S : js_string) (err : js_value) :
  js_truthy (envApiKey env) = false →
  st !! API_KEY_STORAGE_KEY = Some S → S ≠ [] →
  initializeOpenAI S = Some err →
  mount env (localStorage (mount env st)) =
    {| ui := initial_ui;
       localStorage := delete API_KEY_STORAGE_KEY st;
       log := [GetItem API_KEY_STORAGE_KEY] |}.
Proof.
  intros Henv HS Hne Hthrow.
  assert (keyToUse env (st !! API_KEY_STORAGE_KEY) = Some S) as Hkey
    by (by rewrite (keyToUse_saved env _ Henv)).
  rewrite (mount_threw _ env st S err Hkey Hne Hthrow). fields. rewrite Henv.
  apply mount_no_key. by rewrite (keyToUse_saved env _ Henv), lookup_delete_eq.
Qed.

(** X8. With a non-empty environment credential the mount effect never
    changes the storage, whether [initializeOpenAI] accepts the credential
    or not, and what it does is the same over every storage; mounting again
    repeats it exactly. *)
Theorem env_mount_keeps_storage (env : Env) (st st' : gmap js_string js_string) :
  js_truthy (envApiKey env) = true →
  localStorage (mount env st) = st
  ∧ storage_writes (log (mount env st)) = []
  ∧ ui (mount env st) = ui (mount env st')
  ∧ log (mount env st) = log (mount env st')
  ∧ mount env (localStorage (mount env st)) = mount env st.
Proof.
  intros Henv.
  assert (∃ E, envApiKey env = Some E ∧ E ≠ []) as (E & HE & Hne).
  { destruct (envApiKey env) as [[|c r]|]; try discriminate. by exists (c :: r). }
  pose proof (keyToUse_env env (st !! API_KEY_STORAGE_KEY) E HE Hne) as Hk.
  pose proof (keyToUse_env env (st' !! API_KEY_STORAGE_KEY) E HE Hne) as Hk'.
  destruct (initializeOpenAI E) as [err|] eqn:Hinit.
  - rewrite (mount_threw _ env st E err Hk Hne Hinit),
      (mount_threw _ env st' E err Hk' Hne Hinit). fields. rewrite Henv.
    repeat split. by rewrite (mount_threw _ env st E err Hk Hne Hinit), Henv.
  - rewrite (mount_returned _ env st E Hk Hne Hinit),
      (mount_returned _ env st' E Hk' Hne Hinit). fields.
    repeat split. by rewrite (mount_returned _ env st E Hk Hne Hinit).
Qed.

(** X9. The mount effect never writes a value to the storage, and it removes
    the slot exactly when there is no environment credential and
    [initializeOpenAI] threw on the non-empty stored key. *)
Theorem mount_removes_only_rejected_stored_key (env : Env)
    (st : gmap js_string js_string) :
  (∀ k v, SetItem k v ∉ log (mount env st))
  ∧ (RemoveItem API_KEY_STORAGE_KEY ∈ log (mount env st)
     ↔ js_truthy (envApiKey env) = false
       ∧ ∃ S err, st !! API_KEY_STORAGE_KEY = Some S ∧ S ≠ []
                  ∧ initializeOpenAI S = Some err)
  ∧ (localStorage (mount env st) = st
     ∨ localStorage (mount env st) = delete API_KEY_STORAGE_KEY st
       ∧ RemoveItem API_KEY_STORAGE_KEY ∈ log (mount env st)).
Proof.
  mount_cases initializeOpenAI env st; fields.
  - split; [|split; [|by left]].
    + intros k v Hin. apply list_elem_of_singleton in Hin. discriminate.
    + split.
      * intros Hin. apply list_elem_of_singleton in Hin. discriminate.
      * intros (Henv & S & err' & HS & HS' & _).
        rewrite (keyToUse_saved env _ Henv), HS in Hkey.
        apply js_truthy_Some in HS'. congruence.
  - destruct (js_truthy (envApiKey env)) eqn:Henv; cbn [app].
    + split; [|split; [|by left]].
      * intros k v Hin.
        repeat (apply elem_of_cons in Hin as [?|Hin]; [discriminate|]).
        by apply elem_of_nil in Hin.
      * split; [|by intros [? _]]. intros Hin.
        repeat (apply elem_of_cons in Hin as [?|Hin]; [discriminate|]).
        by apply elem_of_nil in Hin.
    + assert (RemoveItem API_KEY_STORAGE_KEY
              ∈ [GetItem API_KEY_STORAGE_KEY; InitCall key;
                 RemoveItem API_KEY_STORAGE_KEY]) as Hin
        by (do 2 apply list_elem_of_further; apply list_elem_of_here).
      split; [|split; [|by right]].
      * intros k v Hin'.
        repeat (apply elem_of_cons in Hin' as [?|Hin']; [discriminate|]).
        by apply elem_of_nil in Hin'.
      * split; [|done]. intros _. split; [done|]. exists key, err.
        by rewrite <- (keyToUse_saved env (st !! API_KEY_STORAGE_KEY) Henv).
  - split; [|split; [|by left]].
    + intros k v Hin.
      repeat (apply elem_of_cons in Hin as [?|Hin]; [discriminate|]).
      by apply elem_of_nil in Hin.
    + split.
      * intros Hin.
        repeat (apply elem_of_cons in Hin as [?|Hin]; [discriminate|]).
        by apply elem_of_nil in Hin.
      * intros (Henv & S & err' & HS & _ & Hthrow).
        rewrite (keyToUse_saved env _ Henv), HS in Hkey. congruence.
Qed.

(** ** What the user sees *)

Lemma lit_String (a : ascii) (s : string) :
  lit (String a s) = N_of_ascii a :: lit s.
Proof. reflexivity. Qed.

Lemma submit_failure_text_nonempty (err : js_value) :
  lit "Failed to initialize OpenAI: " ++ describe err ≠ [].
Proof. rewrite lit_String. discriminate. Qed.

Lemma submit_failure_text_not_required (err : js_value) :
  lit "Failed to initialize OpenAI: " ++ describe err ≠ lit "API key is required".
Proof.
  rewrite (lit_String "F"), (lit_String "A"). cbn [app].
  intros H. injection H as H _. vm_compute in H. discriminate H.
Qed.

(** An error message is never the empty string. *)
Lemma reachable_error_nonempty (env : Env) (st : gmap js_string js_string)
    (w : World) :
  reachable env st w → error (ui w) ≠ Some [].
Proof.
  induction 1 as [|w ev Hw IH Hen|w Hw IH].
  - mount_cases initializeOpenAI env st; fields; [done| |done].
    rewrite lit_String. discriminate.
  - destruct ev as [v| |]; cbn [step].
    + run_handler. exact IH.
    + submit_cases initializeOpenAI w; fields; [| |done].
      * rewrite lit_String. discriminate.
      * intros H. injection H as H. by apply (submit_failure_text_nonempty err).
    + rewrite handleReset_eq. fields. exact IH.
  - rerun_cases initializeOpenAI env w; fields; [exact IH| |exact IH].
    rewrite lit_String. discriminate.
Qed.

(** X10. What the first render after startup shows: the success view when
    a credential was found and accepted; the form with the fixed error
    message when it was found and rejected; the plain form when none was
    found. Whenever the form is shown, its field is empty: the credential
    taken from the environment or the storage is not put into it. *)
Theorem startup_view (env : Env) (st : gmap js_string js_string) :
  render (ui (mount env st)) =
    match keyToUse env (st !! API_KEY_STORAGE_KEY) with
    | Some (c :: r) =>
        match initializeOpenAI (c :: r) with
        | None => Ready
        | Some _ =>
            Form {| field_value := [];
                    error_open := true;
                    error_text := Some (lit "Failed to initialize with API key");
                    submit_disabled := true |}
        end
    | _ =>
        Form {| field_value := []; error_open := false; error_text := None;
                submit_disabled := true |}
    end.
Proof.
  mount_cases initializeOpenAI env st.
  - by destruct (keyToUse env _) as [[|c r]|].
  - rewrite Hkey. destruct key as [|c r]; [done|]. by rewrite Hinit.
  - rewrite Hkey. destruct key as [|c r]; [done|]. by rewrite Hinit.
Qed.

(** X11. The submit button and the guard of [handleSubmit] agree. When the
    form is shown, the button is disabled exactly when the field is empty or
    holds white space only; a submission with the button enabled calls
    [initializeOpenAI] once, on the trimmed field, and never reports
    "API key is required"; a submission with the button disabled calls
    nothing and reports exactly that. *)
Theorem submit_button_guard (w : World) (f : FormView) :
  render (ui w) = Form f →
  (submit_disabled f = true ↔ forallb is_trimmed_char (field_value f) = true)
  ∧ (submit_disabled f = false →
     init_calls (log (exec handleSubmit w)) =
       init_calls (log w) ++ [trim (field_value f)]
     ∧ error (ui (exec handleSubmit w)) ≠ Some (lit "API key is required"))
  ∧ (submit_disabled f = true →
     log (exec handleSubmit w) = log w
     ∧ error (ui (exec handleSubmit w)) = Some (lit "API key is required")).
Proof.
  unfold render. destruct (isInitialized (ui w)); [discriminate|].
  intros [= <-]. cbn [submit_disabled field_value].
  rewrite negb_true_iff, negb_false_iff.
  split; [|split].
  - rewrite <- trim_nil_iff. destruct (trim (apiKey (ui w))); by split.
  - intros Hne. apply js_truthy_Some in Hne.
    destruct (initializeOpenAI (trim (apiKey (ui w)))) as [err|] eqn:Hinit.
    + rewrite (handleSubmit_threw _ w err Hne Hinit). fields.
      rewrite init_calls_app. split; [done|].
      intros H. injection H as H. by apply (submit_failure_text_not_required err).
    + rewrite (handleSubmit_returned _ w Hne Hinit). fields.
      rewrite init_calls_app. by split.
  - intros Hblank.
    assert (trim (apiKey (ui w)) = []) as Hnil
      by (by destruct (trim (apiKey (ui w)))).
    by rewrite (handleSubmit_required _ w Hnil).
Qed.

(** X12. A submission never leaves an old error behind: afterwards no error
    is set exactly when the trimmed input was not empty and
    [initializeOpenAI] accepted it. *)
Theorem submit_error_fresh (w : World) :
  error (ui (exec handleSubmit w)) = None
  ↔ trim (apiKey (ui w)) ≠ [] ∧ initializeOpenAI (trim (apiKey (ui w))) = None.
Proof.
  submit_cases initializeOpenAI w; fields.
  - split; [discriminate|]. by intros [? _].
  - split; [discriminate|]. intros [_ ?]. discriminate.
  - by split.
Qed.

(** X13. In every reachable state, further runs of the effect included, no
    error message is the empty string; so whenever the form is shown, the
    error alert is open exactly when an error is set, and it shows that
    error. *)
Theorem error_panel_shows_every_error (env : Env) (st : gmap js_string js_string)
    (w : World) :
  reachable env st w →
  error (ui w) ≠ Some []
  ∧ ∀ f, render (ui w) = Form f →
         error_text f = error (ui w)
         ∧ (error_open f = true ↔ error (ui w) ≠ None).
Proof.
  intros Hw. pose proof (reachable_error_nonempty env st w Hw) as Hne.
  split; [done|]. intros f. unfold render.
  destruct (isInitialized (ui w)); [discriminate|].
  intros [= <-]. cbn [error_text error_open]. split; [done|].
  destruct (error (ui w)) as [[|c r]|]; simpl; split; congruence.
Qed.

(** X14. When the parent passes the same callback at every render, so that
    the effect runs once, reset brings the instance back to the state it was
    created in: the three state cells have their initial values, the storage
    slot is gone, and the form is shown with an empty field, no error and
    the submit button disabled. *)
Theorem reset_returns_to_initial (env : Env) (st : gmap js_string js_string)
    (w : World) :
  reachable_stable env st w →
  isInitialized (ui w) = true →
  ui (exec handleReset w) = initial_ui
  ∧ localStorage (exec handleReset w) !! API_KEY_STORAGE_KEY = None
  ∧ render (ui (exec handleReset w)) =
      Form {| field_value := []; error_open := false; error_text := None;
              submit_disabled := true |}.
Proof.
  intros Hw Hinit. rewrite handleReset_eq. fields.
  rewrite (stable_initialized_no_error initializeOpenAI env st w Hw Hinit).
  split; [done|]. split; [apply lookup_delete_eq|done].
Qed.

(** X16. When the parent passes the same callback at every render, so that
    the effect runs once: whenever [isInitialized] is true the most recent
    call of [initializeOpenAI] returned, on the input value or its trimmed
    form, and no error is set; and whenever an error is set it is
    "API key is required" or the most recent call threw. *)
Theorem stable_invariant (env : Env) (st : gmap js_string js_string) (w : World) :
  reachable_stable env st w →
  (isInitialized (ui w) = true →
   error (ui w) = None
   ∧ ∃ key, last_init_call (log w) = Some key
            ∧ initializeOpenAI key = None
            ∧ (key = apiKey (ui w) ∨ key = trim (apiKey (ui w))))
  ∧ (∀ m, error (ui w) = Some m →
       m = lit "API key is required"
       ∨ ∃ key, last_init_call (log w) = Some key ∧ initializeOpenAI key ≠ None).
Proof.
  induction 1 as [|w ev Hw [IH1 IH2] Hen].
  - mount_cases initializeOpenAI env st; fields.
    + split; [discriminate|]. unfold initial_ui; cbn. discriminate.
    + split; [discriminate|]. intros m _. right. exists key.
      split; [|congruence]. by destruct (js_truthy (envApiKey env)).
    + split; [|discriminate]. intros _. split; [done|]. exists key. auto.
  - destruct ev as [v| |]; cbn [step enabled] in Hen |- *.
    + apply negb_true_iff in Hen. run_handler.
      split; [congruence|]. exact IH2.
    + apply negb_true_iff in Hen.
      submit_cases initializeOpenAI w; fields.
      * split; [congruence|]. intros m [= <-]. by left.
      * split; [congruence|]. intros m _. right.
        exists (trim (apiKey (ui w))).
        split; [by apply last_init_call_app|congruence].
      * split; [|discriminate]. intros _. split; [done|].
        exists (trim (apiKey (ui w))).
        split; [by apply last_init_call_app|auto].
    + rewrite handleReset_eq. fields. split; [discriminate|].
      intros m Hm. destruct (IH1 Hen) as [Hnone _]. congruence.
Qed.

(** ** What the parent hears *)

Lemma alternates_snoc (e x : bool) (l : list bool) :
  alternates e (l ++ [x]) =
    alternates e l
    && eqb x (match last l with Some y => negb y | None => e end).
Proof.
  revert e. induction l as [|b l IH]; intros e.
  - simpl. by rewrite andb_true_r.
  - change (alternates e ((b :: l) ++ [x]))
      with (eqb b e && alternates (negb e) (l ++ [x])).
    rewrite IH.
    change (alternates e (b :: l)) with (eqb b e && alternates (negb e) l).
    destruct l as [|b' l].
    + simpl. by destruct b, e, x.
    + change (last (b :: b' :: l)) with (last (b' :: l)).
      destruct (proj2 (last_is_Some (b' :: l))) as [y ->]; [done|].
      by rewrite andb_assoc.
Qed.

(** X15. When the parent passes the same callback at every render, so that
    the effect runs once, the parent is never told the same thing twice in a
    row: the notifications sent so far alternate, starting with true. *)
Theorem notifications_alternate (env : Env) (st : gmap js_string js_string)
    (w : World) :
  reachable_stable env st w →
  alternates true (notifications (log w)) = true.
Proof.
  induction 1 as [|w ev Hw IH Hen].
  - mount_cases initializeOpenAI env st; fields; [done| |done].
    by destruct (js_truthy (envApiKey env)).
  - pose proof (reachable_parent_view initializeOpenAI env st w
                  (reachable_stable_reachable initializeOpenAI env st w Hw))
      as Hview.
    unfold parent_view in Hview.
    destruct ev as [v| |]; cbn [step enabled] in Hen |- *.
    + run_handler. exact IH.
    + apply negb_true_iff in Hen. rewrite Hen in Hview.
      submit_cases initializeOpenAI w; fields; [done| |].
      * by rewrite notifications_app, app_nil_r.
      * rewrite notifications_app.
        change (notifications [InitCall ?a; ?b; Notify true]) with [true].
        rewrite alternates_snoc, IH. destruct Hview as [->| ->]; done.
    + rewrite Hen in Hview. rewrite handleReset_eq. fields.
      rewrite notifications_app.
      change (notifications [?a; Notify false]) with [false].
      by rewrite alternates_snoc, IH, Hview.
Qed.

End Further.

(** ** The further properties at sample inputs *)

Lemma session_ready_reachable :
  reachable accepts_sk_good no_env session_storage session_ready.
Proof.
  unfold session_ready.
  do 2 (apply reachable_step; [|by vm_compute]).
  apply reachable_mount.
Qed.

Lemma session_reset_reachable :
  reachable accepts_sk_good no_env session_storage session_reset.
Proof.
  apply reachable_step; [apply session_ready_reachable|by vm_compute].
Qed.

Lemma storage_frame_witness :
  localStorage session_reset !! lit "theme" = session_storage !! lit "theme".
Proof.
  apply (storage_frame accepts_sk_good no_env session_storage session_reset
           (lit "theme")).
  - apply session_reset_reachable.
  - by vm_compute.
Defined.

Lemma persisted_keys_accepted_witness :
  API_KEY_STORAGE_KEY = API_KEY_STORAGE_KEY
  ∧ lit "sk-good" ≠ []
  ∧ trim (lit "sk-good") = lit "sk-good"
  ∧ accepts_sk_good (lit "sk-good") = None.
Proof.
  apply (persisted_keys_accepted accepts_sk_good no_env session_storage
           session_ready API_KEY_STORAGE_KEY (lit "sk-good")).
  - apply session_ready_reachable.
  - vm_compute. do 4 apply list_elem_of_further. apply list_elem_of_here.
Defined.

Lemma initializer_never_gets_empty_key_witness :
  lit "sk-old" ≠ []
  ∧ (keyToUse no_env (session_storage !! API_KEY_STORAGE_KEY) = Some (lit "sk-old")
     ∨ trim (lit "sk-old") = lit "sk-old").
Proof.
  apply (initializer_never_gets_empty_key accepts_sk_good no_env session_storage
           session_ready (lit "sk-old")).
  - apply session_ready_reachable.
  - vm_compute. apply list_elem_of_here.
Defined.

Lemma stored_key_follows_state_witness :
  js_truthy (localStorage session_ready !! API_KEY_STORAGE_KEY)
  = isInitialized (ui session_ready)
  ∧ (isInitialized (ui session_ready) = true →
     localStorage session_ready !! API_KEY_STORAGE_KEY
     = last_init_call (log session_ready)).
Proof.
  apply (stored_key_follows_state accepts_sk_good no_env session_storage
           session_ready).
  - reflexivity.
  - apply session_ready_reachable.
Defined.

Lemma submit_then_reload_witness :
  isInitialized
    (ui (mount accepts_sk_good no_env
           (localStorage
              (exec (handleSubmit accepts_sk_good) (typed (lit " sk-good "))))))
  = true.
Proof.
  rewrite (submit_then_reload accepts_sk_good no_env (typed (lit " sk-good "))).
  - reflexivity.
  - reflexivity.
  - by vm_compute.
  - by vm_compute.
Defined.

Lemma reset_then_reload_witness :
  ui (mount accepts_sk_good no_env (localStorage (exec handleReset session_ready)))
  = initial_ui.
Proof.
  rewrite (reset_then_reload accepts_sk_good no_env session_ready).
  - reflexivity.
  - reflexivity.
Defined.

Lemma rejected_stored_key_then_reload_witness :
  log (mount accepts_sk_good no_env
         (localStorage (mount accepts_sk_good no_env (stored (lit "sk-old")))))
  = [GetItem API_KEY_STORAGE_KEY].
Proof.
  rewrite (rejected_stored_key_then_reload accepts_sk_good no_env
             (stored (lit "sk-old")) (lit "sk-old")
             (JsError (lit "Incorrect API key provided"))).
  - reflexivity.
  - reflexivity.
  - by vm_compute.
  - by vm_compute.
  - by vm_compute.
Defined.

Lemma env_mount_keeps_storage_witness :
  localStorage (mount accepts_sk_good env_sk_bad (stored (lit "sk-good")))
  = stored (lit "sk-good").
Proof.
  apply (env_mount_keeps_storage accepts_sk_good env_sk_bad
           (stored (lit "sk-good")) ∅).
  reflexivity.
Defined.

Lemma submit_button_guard_witness :
  log (exec (handleSubmit accepts_sk_good) (typed (lit "  "))) = log (typed (lit "  "))
  ∧ error (ui (exec (handleSubmit accepts_sk_good) (typed (lit "  "))))
    = Some (lit "API key is required").
Proof.
  apply (submit_button_guard accepts_sk_good (typed (lit "  "))
           {| field_value := lit "  "; error_open := false; error_text := None;
              submit_disabled := true |}).
  - reflexivity.
  - reflexivity.
Defined.

Lemma error_panel_shows_every_error_witness :
  error (ui (rerun accepts_sk_good no_env
               (mount accepts_sk_good no_env (stored (lit "sk-old"))))) ≠ Some []
  ∧ ∀ f,
      render (ui (rerun accepts_sk_good no_env
                    (mount accepts_sk_good no_env (stored (lit "sk-old")))))
      = Form f →
      error_text f
      = error (ui (rerun accepts_sk_good no_env
                     (mount accepts_sk_good no_env (stored (lit "sk-old")))))
      ∧ (error_open f = true
         ↔ error (ui (rerun accepts_sk_good no_env
                        (mount accepts_sk_good no_env (stored (lit "sk-old")))))
           ≠ None).
Proof.
  apply (error_panel_shows_every_error accepts_sk_good no_env (stored (lit "sk-old"))).
  apply reachable_rerun, reachable_mount.
Defined.

Lemma session_ready_stable :
  reachable_stable accepts_sk_good no_env session_storage session_ready.
Proof.
  unfold session_ready.
  do 2 (apply stable_step; [|by vm_compute]).
  apply stable_mount.
Qed.

Lemma reset_returns_to_initial_witness :
  ui (exec handleReset session_ready) = initial_ui
  ∧ localStorage (exec handleReset session_ready) !! API_KEY_STORAGE_KEY = None
  ∧ render (ui (exec handleReset session_ready)) =
      Form {| field_value := []; error_open := false; error_text := None;
              submit_disabled := true |}.
Proof.
  apply (reset_returns_to_initial accepts_sk_good no_env session_storage
           session_ready).
  - apply session_ready_stable.
  - by vm_compute.
Defined.

Lemma notifications_alternate_witness :
  alternates true (notifications (log session_reset)) = true.
Proof.
  apply (notifications_alternate accepts_sk_good no_env session_storage
           session_reset).
  apply stable_step; [apply session_ready_stable|by vm_compute].
Defined.

Lemma stable_invariant_witness :
  (isInitialized (ui session_ready) = true →
   error (ui session_ready) = None
   ∧ ∃ key, last_init_call (log session_ready) = Some key
            ∧ accepts_sk_good key = None
            ∧ (key = apiKey (ui session_ready)
               ∨ key = trim (apiKey (ui session_ready))))
  ∧ (∀ m, error (ui session_ready) = Some m →
       m = lit "API key is required"
       ∨ ∃ key, last_init_call (log session_ready) = Some key
                ∧ accepts_sk_good key ≠ None).
Proof.
  apply (stable_invariant accepts_sk_good no_env session_storage session_ready).
  apply session_ready_stable.
Defined.
